(** * MigosiDesigns AI Mentor: the message orchestration of [App.tsx]

    A shallow embedding of [sendMessage] (src/App.tsx), of the
    [Message] model (types.ts) and of the state-dependent part of the
    rendered view, followed by the properties of the specification that
    concern them and by further properties of the code.

    Conventions of the embedding.
    - A JavaScript string is the list of its UTF-16 code units.
    - An optional property ([references?], [imageUrl?]) or a value that
      may be [undefined] is an [option]; [None] is [undefined].
    - [sendMessage] is an async function.  It is split at its [await]:
      [sendMessage_start] is the synchronous part, [sendMessage_resume]
      is what runs once the provider call has settled.  The provider is
      not modelled; its settlement is an input of type [Outcome].
    - [Date.now()] is an input of the function that reads it.
    - React state is the record [State]; a setter returns the new record.
      A call of [sendMessage] reads the state of the render it was
      created in, which the model takes to be the current state. *)

From Stdlib Require Import List Bool Arith NArith Ascii String DecimalString Lia.
From Stdlib Require Import DecimalPos DecimalN Sorted.
Import ListNotations.

(** ** JavaScript strings *)

Module JS.

Definition jsstring := list N.

(** An ASCII literal of the source, as code units. *)
Definition lit (s : string) : jsstring :=
  map N_of_ascii (list_ascii_of_string s).

(** U+0022, the double quote of the caption template. *)
Definition dquote : N := 34%N.

(** ToBoolean on a string: only the empty string is falsy. *)
Definition truthy (s : jsstring) : bool :=
  match s with
  | [] => false
  | _ :: _ => true
  end.

(** ToBoolean on a possibly undefined string. *)
Definition truthy_opt (s : option jsstring) : bool :=
  match s with
  | None => false
  | Some s => truthy s
  end.

(** WhiteSpace and LineTerminator of ECMAScript, the code units that
    [String.prototype.trim] removes. *)
Definition isWhiteSpace (c : N) : bool :=
  ((9 <=? c) && (c <=? 13)             (* TAB LF VT FF CR *)
   || (c =? 32) || (c =? 160)          (* SP, NBSP *)
   || (c =? 5760)                      (* U+1680 *)
   || ((8192 <=? c) && (c <=? 8202))   (* U+2000 .. U+200A *)
   || (c =? 8232) || (c =? 8233)       (* LS, PS *)
   || (c =? 8239) || (c =? 8287)       (* U+202F, U+205F *)
   || (c =? 12288) || (c =? 65279))%N. (* U+3000, U+FEFF *)

Fixpoint trimStart (s : jsstring) : jsstring :=
  match s with
  | [] => []
  | c :: r => if isWhiteSpace c then trimStart r else s
  end.

Definition trimEnd (s : jsstring) : jsstring :=
  rev (trimStart (rev s)).

Definition trim (s : jsstring) : jsstring :=
  trimEnd (trimStart s).

Fixpoint startsWith (s p : jsstring) : bool :=
  match p, s with
  | [], _ => true
  | _ :: _, [] => false
  | a :: p', b :: s' => (a =? b)%N && startsWith s' p'
  end.

(** [s.substring(n)] for a non-negative [n]; past the end it is empty. *)
Definition substring (s : jsstring) (n : nat) : jsstring := skipn n s.

(** [n.toString()] for a non-negative integer. *)
Definition toString (n : N) : jsstring :=
  lit (NilZero.string_of_uint (N.to_uint n)).

End JS.

Import JS.

Arguments lit : simpl never.

(** ** The message model (types.ts) *)

Inductive Author := USER | MODEL.

(** An entry of [references].  The interface types both fields as
    [string]; [sendMessage] builds the entries from [chunk.web?.uri] and
    [chunk.web?.title], which may be [undefined], and filters afterwards. *)
Record Reference := mkReference {
  uri : option jsstring;
  title : option jsstring
}.

(** The interface types [text] as [string]; [sendMessage] stores
    [response.text] in it without a check, so at run time the field can
    hold [undefined]. *)
Record Message := mkMessage {
  author : Author;
  text : option jsstring;
  id : jsstring;
  references : option (list Reference);
  imageUrl : option jsstring
}.

(** ** The provider's response, as far as [sendMessage] reads it *)

Record Blob := mkBlob { data : jsstring }.

Record Part := mkPart { inlineData : option Blob }.

Record Content := mkContent { parts : option (list Part) }.

Record Web := mkWeb {
  web_uri : option jsstring;
  web_title : option jsstring
}.

Record GroundingChunk := mkGroundingChunk { web : option Web }.

Record GroundingMetadata := mkGroundingMetadata {
  groundingChunks : option (list GroundingChunk)
}.

Record Candidate := mkCandidate {
  content : option Content;
  groundingMetadata : option GroundingMetadata
}.

Record Response := mkResponse {
  response_text : option jsstring;
  candidates : option (list Candidate)
}.

(** How the awaited provider call settles.  [Throws] also stands for a
    failure of [new GoogleGenAI], which is inside the same [try]. *)
Inductive Outcome :=
| Throws
| Returns (r : Response).

(** ** Exceptions inside the [try] block *)

Inductive Error :=
| ProviderFailure   (* the awaited call rejected *)
| TypeError         (* property read on undefined, iteration of undefined *)
| NoImageData.      (* new Error("No image data received from API.") *)

Inductive result (A : Type) :=
| Ok (a : A)
| Thrown (e : Error).

Arguments Ok {A} a.
Arguments Thrown {A} e.

Definition bind {A B} (m : result A) (k : A -> result B) : result B :=
  match m with
  | Ok a => k a
  | Thrown e => Thrown e
  end.

Notation "x <- m ;; k" := (bind m (fun x => k))
  (at level 61, m at next level, right associativity).

(** [o.f] where [o] may be undefined and [f] is read without [?.]. *)
Definition get {A} (o : option A) : result A :=
  match o with
  | Some a => Ok a
  | None => Thrown TypeError
  end.

Definition await (o : Outcome) : result Response :=
  match o with
  | Throws => Thrown ProviderFailure
  | Returns r => Ok r
  end.

(** [o?.f]: undefined when [o] is, the property otherwise. *)
Definition chain {A B} (o : option A) (f : A -> option B) : option B :=
  match o with
  | Some a => f a
  | None => None
  end.

Notation "o ?. f" := (chain o f) (at level 40, left associativity).

(** ** Component state *)

Record State := mkState {
  messages : list Message;
  input : jsstring;
  isLoading : bool
}.

(** [setMessages((prev) => [...prev, m])] *)
Definition appendMessage (m : Message) (st : State) : State :=
  {| messages := messages st ++ [m];
     input := input st;
     isLoading := isLoading st |}.

Definition setInput (s : jsstring) (st : State) : State :=
  {| messages := messages st; input := s; isLoading := isLoading st |}.

Definition setIsLoading (b : bool) (st : State) : State :=
  {| messages := messages st; input := input st; isLoading := b |}.

Definition greeting : Message :=
  {| author := MODEL;
     text := Some (lit "Hello! I'm your MigosiDesigns AI Mentor. How can I help you with your graphic design journey today? You can also ask me to create an image by typing `/imagine` followed by a prompt.");
     id := lit "initial-message";
     references := None;
     imageUrl := None |}.

(** The state once the mount effect has run: [useState] defaults and the
    greeting set by [useEffect(..., [])]. *)
Definition initial : State :=
  {| messages := [greeting]; input := []; isLoading := false |}.

(** ** [sendMessage] *)

(** What is sent to [ai.models.generateContent]. *)
Inductive Request :=
| ImageRequest (prompt : jsstring)
    (* model 'gemini-2.5-flash-image', contents { parts: [{ text: prompt }] },
       responseModalities [Modality.IMAGE] *)
| TextRequest (contents : jsstring).
    (* model 'gemini-2.5-flash', tools [{ googleSearch: {} }] *)

Definition imagine : jsstring := lit "/imagine ".

Definition persona : jsstring :=
  lit "You are MigosiDesigns, a friendly and expert graphic design mentor. Your goal is to guide and assist users with their graphic design questions. Provide encouraging, insightful, and practical advice. User prompt: ".

Definition data_uri : jsstring := lit "data:image/png;base64,".

Definition fallback_text : jsstring :=
  lit "Sorry, I encountered an error. Please try again.".

(** [`Here is my take on: "${prompt}"`] *)
Definition caption (prompt : jsstring) : jsstring :=
  lit "Here is my take on: " ++ [dquote] ++ prompt ++ [dquote].

Definition isImagePrompt (currentInput : jsstring) : bool :=
  startsWith (trim currentInput) imagine.

(** [currentInput.trim().substring('/imagine '.length)] *)
Definition image_prompt (currentInput : jsstring) : jsstring :=
  substring (trim currentInput) (List.length imagine).

Definition request_of (currentInput : jsstring) : Request :=
  if isImagePrompt currentInput
  then ImageRequest (image_prompt currentInput)
  else TextRequest (persona ++ currentInput).

(** The body of the [for ... of] loop over the parts: a part with
    [inlineData] assigns [imageUrl], any other leaves it. *)
Definition scan_step (imageUrl : jsstring) (part : Part) : jsstring :=
  match inlineData part with
  | Some blob => data_uri ++ data blob
  | None => imageUrl
  end.

(** The loop, started with [imageUrl = '']; it has no [break]. *)
Definition scan_parts (ps : list Part) : jsstring :=
  fold_left scan_step ps [].

(** [response.candidates[0].content.parts], read without [?.]: any
    missing link throws a TypeError (the last one when [for ... of] is
    handed undefined). *)
Definition response_parts (response : Response) : result (list Part) :=
  cs <- get (candidates response) ;;
  c0 <- get (nth_error cs 0) ;;
  ct <- get (content c0) ;;
  get (parts ct).

Definition image_branch (currentInput : jsstring) (o : Outcome) (now : N)
  : result Message :=
  let prompt := image_prompt currentInput in
  response <- await o ;;
  ps <- response_parts response ;;
  let imageUrl := scan_parts ps in
  if truthy imageUrl
  then Ok {| author := MODEL;
             text := Some (caption prompt);
             id := toString now ++ lit "-model";
             references := None;
             imageUrl := Some imageUrl |}
  else Thrown NoImageData.

(** [response.candidates?.[0]?.groundingMetadata?.groundingChunks] *)
Definition response_chunks (response : Response)
  : option (list GroundingChunk) :=
  candidates response ?. (fun cs => nth_error cs 0)
    ?. groundingMetadata ?. groundingChunks.

Definition to_reference (chunk : GroundingChunk) : Reference :=
  {| uri := web chunk ?. web_uri; title := web chunk ?. web_title |}.

(** [ref.uri && ref.title] as a filter predicate. *)
Definition keep_reference (ref : Reference) : bool :=
  truthy_opt (uri ref) && truthy_opt (title ref).

Definition references_of (chunks : option (list GroundingChunk))
  : option (list Reference) :=
  option_map (fun cs => filter keep_reference (map to_reference cs)) chunks.

Definition text_branch (o : Outcome) (now : N) : result Message :=
  response <- await o ;;
  let modelText := response_text response in
  let groundingChunks := response_chunks response in
  let references := references_of groundingChunks in
  Ok {| author := MODEL;
        text := modelText;
        id := toString now ++ lit "-model";
        references := references;
        imageUrl := None |}.

(** The body of the [try], from the [await] on: the message handed to
    [setMessages], or the exception that reaches [catch]. *)
Definition try_block (currentInput : jsstring) (o : Outcome) (now : N)
  : result Message :=
  if isImagePrompt currentInput
  then image_branch currentInput o now
  else text_branch o now.

Definition errorMessage (now : N) : Message :=
  {| author := MODEL;
     text := Some fallback_text;
     id := toString now ++ lit "-error";
     references := None;
     imageUrl := None |}.

Definition userMessage (input : jsstring) (now : N) : Message :=
  {| author := USER;
     text := Some input;
     id := toString now;
     references := None;
     imageUrl := None |}.

(** A call of [sendMessage] suspended at its [await]. *)
Record Call := mkCall {
  currentInput : jsstring;
  request : Request
}.

(** The synchronous part: the guard, the optimistic append, and the
    dispatch.  [None] is the early [return]. *)
Definition sendMessage_start (st : State) (now : N) : State * option Call :=
  if negb (truthy (trim (input st))) || isLoading st
  then (st, None)
  else
    let st1 := appendMessage (userMessage (input st) now) st in
    let currentInput := input st in
    let st2 := setInput [] st1 in
    let st3 := setIsLoading true st2 in
    (st3, Some {| currentInput := currentInput;
                  request := request_of currentInput |}).

(** The rest of the [try], then [catch] and [finally], run on the state
    current when the call settles. *)
Definition sendMessage_resume (c : Call) (o : Outcome) (now : N) (st : State)
  : State :=
  let st1 :=
    match try_block (currentInput c) o now with
    | Ok modelMessage => appendMessage modelMessage st
    | Thrown _ => appendMessage (errorMessage now) st
    end in
  setIsLoading false st1.

(** One whole call, when nothing else touches the state in between. *)
Definition sendMessage (st : State) (now : N) (o : Outcome) (later : N)
  : State :=
  match sendMessage_start st now with
  | (st1, None) => st1
  | (st1, Some c) => sendMessage_resume c o later st1
  end.

(** ** The component as a transition system *)

Record System := mkSystem {
  ui : State;
  inflight : list Call;        (* calls suspended at their await *)
  dispatched : list Request    (* every request sent so far *)
}.

Inductive Event :=
| Edit (s : jsstring)                  (* onChange: setInput(e.target.value) *)
| Submit (now : N)                     (* Enter or the send button *)
| Settle (k : nat) (o : Outcome) (now : N).
                                       (* the k-th suspended call settles *)

Definition remove_nth {A} (k : nat) (l : list A) : list A :=
  firstn k l ++ skipn (S k) l.

Definition step (sys : System) (ev : Event) : System :=
  match ev with
  | Edit s =>
      {| ui := setInput s (ui sys);
         inflight := inflight sys;
         dispatched := dispatched sys |}
  | Submit now =>
      match sendMessage_start (ui sys) now with
      | (st, None) =>
          {| ui := st; inflight := inflight sys;
             dispatched := dispatched sys |}
      | (st, Some c) =>
          {| ui := st; inflight := inflight sys ++ [c];
             dispatched := dispatched sys ++ [request c] |}
      end
  | Settle k o now =>
      match nth_error (inflight sys) k with
      | None => sys
      | Some c =>
          {| ui := sendMessage_resume c o now (ui sys);
             inflight := remove_nth k (inflight sys);
             dispatched := dispatched sys |}
      end
  end.

Definition run (sys : System) (evs : list Event) : System :=
  fold_left step evs sys.

Definition boot : System :=
  {| ui := initial; inflight := []; dispatched := [] |}.

Definition reachable (sys : System) : Prop :=
  exists evs, sys = run boot evs.

(** ** Words of the specification, for the statements below *)

(** No part of the list carries inline image data. *)
Definition no_inline_data (ps : list Part) : Prop :=
  forall p, In p ps -> inlineData p = None.

(** The specification's selection rule: the first part that carries
    inline image data. *)
Definition spec_first_inline (ps : list Part) : option Blob :=
  find (fun p => match inlineData p with Some _ => true | None => false end) ps
    ?. inlineData.

(** Empty or made of white space only. *)
Definition blank (s : jsstring) : bool := forallb isWhiteSpace s.

(** A submit that passes the guard of [sendMessage]. *)
Definition accepted (st : State) : Prop :=
  blank (input st) = false /\ isLoading st = false.

(** An entry with both fields present and non-empty. *)
Definition complete (ref : Reference) : Prop :=
  exists u t, uri ref = Some u /\ title ref = Some t /\ u <> [] /\ t <> [].

(** ** The rendered view

    The JSX returned by [App], reduced to what depends on the state:
    which elements are there, their keys, and the attributes computed
    from [messages], [input] and [isLoading].  Class names that do not
    depend on the state are left out. *)

Definition Author_eqb (a b : Author) : bool :=
  match a, b with
  | USER, USER | MODEL, MODEL => true
  | _, _ => false
  end.

(** [justify-end] for a USER row, [justify-start] otherwise. *)
Inductive Justify := justify_end | justify_start.

(** One [<li key={index}><a href={ref.uri}>{ref.title}</a></li>]. *)
Record Link := mkLink {
  link_key : nat;
  href : option jsstring;
  label : option jsstring
}.

(** One row of [messages.map((msg) => ...)]. *)
Record Row := mkRow {
  row_key : jsstring;          (* key={msg.id} *)
  justify : Justify;
  avatar_M : bool;             (* msg.author === Author.MODEL && the M badge *)
  markdown : option jsstring;  (* <Markdown>{msg.text}</Markdown> *)
  image : option jsstring;     (* msg.imageUrl && <img src={msg.imageUrl}> *)
  links : option (list Link);  (* msg.references && msg.references.length > 0
                                  && the References block *)
  avatar_U : bool              (* msg.author === Author.USER && the U badge *)
}.

(** [msg.references.map((ref, index) => ...)] *)
Definition render_links (refs : list Reference) : list Link :=
  map (fun ir => {| link_key := fst ir;
                    href := uri (snd ir);
                    label := title (snd ir) |})
      (combine (seq 0 (List.length refs)) refs).

Definition render_message (msg : Message) : Row :=
  {| row_key := id msg;
     justify := if Author_eqb (author msg) USER
                then justify_end else justify_start;
     avatar_M := Author_eqb (author msg) MODEL;
     markdown := text msg;
     image := match imageUrl msg with
              | Some u => if truthy u then Some u else None
              | None => None
              end;
     links := match references msg with
              | Some refs =>
                  if (0 <? List.length refs)%nat
                  then Some (render_links refs) else None
              | None => None
              end;
     avatar_U := Author_eqb (author msg) USER |}.

Record View := mkView {
  rows : list Row;
  typing : bool;           (* isLoading && the three pulsing dots *)
  input_value : jsstring;  (* value={input} *)
  input_disabled : bool;   (* disabled={isLoading} *)
  button_disabled : bool   (* disabled={isLoading || !input.trim()} *)
}.

Definition render (st : State) : View :=
  {| rows := map render_message (messages st);
     typing := isLoading st;
     input_value := input st;
     input_disabled := isLoading st;
     button_disabled := isLoading st || negb (truthy (trim (input st))) |}.

(** ** Vocabulary for the further properties *)

(** The value [Date.now()] returns to an event that reads it. *)
Definition stamp (ev : Event) : list N :=
  match ev with
  | Edit _ => []
  | Submit now => [now]
  | Settle _ _ now => [now]
  end.

Definition stamps (evs : list Event) : list N := flat_map stamp evs.

(** The clock readings of a run are strictly increasing. *)
Definition clock_advances (evs : list Event) : Prop :=
  StronglySorted N.lt (stamps evs).

Definition is_edit (ev : Event) : bool :=
  match ev with
  | Edit _ => true
  | _ => false
  end.

(** The texts of the USER messages of a conversation, in order. *)
Definition user_texts (ms : list Message) : list jsstring :=
  flat_map (fun m => match author m, text m with
                     | USER, Some t => [t]
                     | _, _ => []
                     end) ms.

(** [n] completed turns: USER, MODEL, USER, MODEL, ... *)
Fixpoint turns (n : nat) : list Author :=
  match n with
  | O => []
  | S n => USER :: MODEL :: turns n
  end.

(** What [sendMessage] puts behind [Date.now().toString()] in an id. *)
Definition id_suffix (sfx : jsstring) : Prop :=
  sfx = [] \/ sfx = lit "-model" \/ sfx = lit "-error".

(** ASCII decimal digit. *)
Definition isDigit (c : N) : bool := ((48 <=? c) && (c <=? 57))%N.

(** Empty, or starting with something that is not a digit. *)
Definition nondigit_head (s : jsstring) : Prop :=
  match s with
  | [] => True
  | c :: _ => isDigit c = false
  end.

(** ** Sample inputs *)

Module Sample.

Local Open Scope string_scope.

(** A provider response that has the given parts and nothing else. *)
Definition with_parts (ps : list Part) : Response :=
  {| response_text := None;
     candidates :=
       Some [{| content := Some {| parts := Some ps |};
                groundingMetadata := None |}] |}.

(** A provider response with a text and a list of grounding chunks. *)
Definition with_chunks (t : jsstring) (cs : list GroundingChunk)
  : Response :=
  {| response_text := Some t;
     candidates :=
       Some [{| content := None;
                groundingMetadata :=
                  Some {| groundingChunks := Some cs |} |}] |}.

Definition inline (payload : string) : Part :=
  {| inlineData := Some {| data := lit payload |} |}.

Definition two_images : Response :=
  with_parts [inline "AAA"; {| inlineData := None |}; inline "BBB"].

Definition no_image : Response :=
  with_parts [{| inlineData := None |}].

(** Neither text nor candidates. *)
Definition bare : Response :=
  {| response_text := None; candidates := None |}.

Definition chunk (u t : option string) : GroundingChunk :=
  {| web := Some {| web_uri := option_map lit u;
                    web_title := option_map lit t |} |}.

Definition grounded : Response :=
  with_chunks (lit "Try a humanist sans.")
    [chunk (Some "https://a.example") (Some "A");
     chunk (Some "https://b.example") None;
     chunk (Some "") (Some "C");
     {| web := None |};
     chunk (Some "https://e.example") (Some "E")].

Definition all_invalid : Response :=
  with_chunks (lit "Try a humanist sans.")
    [chunk None (Some "A"); {| web := None |}].

(** The component with [s] typed into the input and nothing pending. *)
Definition typed (s : string) : System :=
  run boot [Edit (lit s)].

(** The component just after a question was submitted at time 1000. *)
Definition awaiting : System :=
  run boot [Edit (lit "Which fonts pair well?"); Submit 1000].

(** A whole session: a grounded answer, a failed call, an image. *)
Definition session : list Event :=
  [Edit (lit "Which fonts pair well?"); Submit 1000;
   Settle 0 (Returns grounded) 1500;
   Edit (lit "And for body text?"); Submit 2000; Submit 2001;
   Settle 0 Throws 2500;
   Edit (lit " /imagine a logo "); Submit 3000;
   Settle 0 (Returns two_images) 3500].

(** An image request answered with [two_images]. *)
Definition after_image : System :=
  run boot [Edit (lit "/imagine a logo"); Submit 1000;
            Settle 0 (Returns two_images) 2000].

End Sample.

(** * Properties *)

(** ** Strings *)

Lemma trimStart_nil_iff (s : jsstring) : trimStart s = [] <-> blank s = true.
Proof.
  induction s as [|c r IH]; simpl.
  - tauto.
  - destruct (isWhiteSpace c); simpl; [exact IH|].
    split; discriminate.
Qed.

Lemma blank_app (a b : jsstring) : blank (a ++ b) = blank a && blank b.
Proof. apply forallb_app. Qed.

Lemma blank_rev (s : jsstring) : blank (rev s) = blank s.
Proof.
  induction s as [|c r IH]; simpl; [reflexivity|].
  rewrite blank_app, IH. simpl. rewrite andb_true_r. apply andb_comm.
Qed.

Lemma blank_trimStart (s : jsstring) : blank (trimStart s) = blank s.
Proof.
  induction s as [|c r IH]; simpl; [reflexivity|].
  destruct (isWhiteSpace c) eqn:E; simpl; [exact IH|].
  now rewrite E.
Qed.

(** [trim] leaves nothing exactly on blank strings. *)
Lemma trim_nil_iff (s : jsstring) : trim s = [] <-> blank s = true.
Proof.
  unfold trim, trimEnd. split.
  - intros H. apply (f_equal (@rev N)) in H. rewrite rev_involutive in H.
    simpl in H. apply trimStart_nil_iff in H.
    now rewrite blank_rev, blank_trimStart in H.
  - intros H. apply trimStart_nil_iff in H. now rewrite H.
Qed.

Lemma truthy_trim (s : jsstring) : truthy (trim s) = negb (blank s).
Proof.
  destruct (blank s) eqn:B.
  - apply trim_nil_iff in B. now rewrite B.
  - destruct (trim s) eqn:T; [|reflexivity].
    apply trim_nil_iff in T. congruence.
Qed.

Lemma startsWith_split (p s : jsstring) :
  startsWith s p = true -> s = p ++ skipn (List.length p) s.
Proof.
  revert s. induction p as [|a p IH]; intros s H; [reflexivity|].
  destruct s as [|b s]; simpl in H; [discriminate|].
  apply andb_true_iff in H. destruct H as [Hab Hs].
  apply N.eqb_eq in Hab. subst b. simpl. f_equal. now apply IH.
Qed.

Lemma startsWith_app (p r : jsstring) : startsWith (p ++ r) p = true.
Proof.
  induction p as [|a p IH]; simpl; [now destruct r|].
  now rewrite N.eqb_refl.
Qed.

(** ** The scan over the parts *)

Lemma scan_parts_snoc (ps : list Part) (p : Part) :
  scan_parts (ps ++ [p]) = scan_step (scan_parts ps) p.
Proof. unfold scan_parts. now rewrite fold_left_app. Qed.

Lemma scan_no_inline (ps : list Part) (acc : jsstring) :
  no_inline_data ps -> fold_left scan_step ps acc = acc.
Proof.
  revert acc. induction ps as [|p ps IH]; intros acc H; [reflexivity|].
  cbn [fold_left]. replace (scan_step acc p) with acc.
  - apply IH. intros q Hq. apply H. now right.
  - unfold scan_step. now rewrite (H p (or_introl eq_refl)).
Qed.

(** The value left by the loop is the data URI of the last part that
    carries inline data. *)
Lemma scan_parts_last (pre post : list Part) (b : Blob) :
  no_inline_data post ->
  scan_parts (pre ++ mkPart (Some b) :: post) = data_uri ++ data b.
Proof.
  intros H. unfold scan_parts. rewrite fold_left_app. cbn [fold_left].
  now rewrite scan_no_inline.
Qed.

Lemma scan_parts_nil_iff (ps : list Part) :
  scan_parts ps = [] <-> no_inline_data ps.
Proof.
  split.
  - induction ps as [|p ps IH] using rev_ind.
    + intros _ q [].
    + rewrite scan_parts_snoc. unfold scan_step.
      destruct (inlineData p) as [b|] eqn:E; [discriminate|].
      intros H q Hq. apply in_app_or in Hq. destruct Hq as [Hq|[<-|[]]].
      * now apply IH.
      * exact E.
  - intros H. now apply scan_no_inline.
Qed.

(** Whatever the loop leaves is empty or a data URI. *)
Lemma scan_parts_shape (ps : list Part) :
  scan_parts ps = [] \/ exists payload, scan_parts ps = data_uri ++ payload.
Proof.
  induction ps as [|p ps IH] using rev_ind.
  - now left.
  - rewrite scan_parts_snoc. unfold scan_step.
    destruct (inlineData p) as [b|]; [right; exists (data b); reflexivity|].
    exact IH.
Qed.

(** ** The [try] block *)

Lemma response_parts_error (r : Response) (e : Error) :
  response_parts r = Thrown e -> e = TypeError.
Proof.
  unfold response_parts, bind, get.
  destruct (candidates r) as [cs|]; [|congruence].
  destruct (nth_error cs 0) as [c0|]; [|congruence].
  destruct (content c0) as [ct|]; [|congruence].
  destruct (parts ct); congruence.
Qed.

(** The image branch, case by case. *)
Lemma image_branch_cases (ci : jsstring) (o : Outcome) (now : N) :
  image_branch ci o now =
  match o with
  | Throws => Thrown ProviderFailure
  | Returns r =>
      match response_parts r with
      | Thrown e => Thrown e
      | Ok ps =>
          if truthy (scan_parts ps)
          then Ok {| author := MODEL;
                     text := Some (caption (image_prompt ci));
                     id := toString now ++ lit "-model";
                     references := None;
                     imageUrl := Some (scan_parts ps) |}
          else Thrown NoImageData
      end
  end.
Proof.
  unfold image_branch. destruct o as [|r]; [reflexivity|].
  cbn [await bind]. now destruct (response_parts r).
Qed.

(** The text branch never throws on a response that arrived. *)
Lemma text_branch_returns (r : Response) (now : N) :
  text_branch (Returns r) now =
  Ok {| author := MODEL;
        text := response_text r;
        id := toString now ++ lit "-model";
        references := references_of (response_chunks r);
        imageUrl := None |}.
Proof. reflexivity. Qed.

Lemma truthy_false_nil (s : jsstring) : truthy s = false <-> s = [].
Proof. destruct s; simpl; split; congruence. Qed.

(** When the [try] block throws. *)
Lemma try_block_throws_iff (ci : jsstring) (o : Outcome) (now : N) :
  (exists e, try_block ci o now = Thrown e) <->
  (o = Throws \/
   (isImagePrompt ci = true /\
    exists r, o = Returns r /\
      (response_parts r = Thrown TypeError \/
       exists ps, response_parts r = Ok ps /\ no_inline_data ps))).
Proof.
  unfold try_block. split.
  - intros [e H]. destruct o as [|r]; [now left|right].
    destruct (isImagePrompt ci); [|rewrite text_branch_returns in H; discriminate].
    split; [reflexivity|]. exists r. split; [reflexivity|].
    rewrite image_branch_cases in H.
    destruct (response_parts r) as [ps|e'] eqn:P.
    + right. exists ps. split; [reflexivity|].
      destruct (truthy (scan_parts ps)) eqn:T; [discriminate|].
      now apply scan_parts_nil_iff, truthy_false_nil.
    + left. f_equal. now apply (response_parts_error r).
  - intros [->|[I [r [-> [P|[ps [P N]]]]]]].
    + exists ProviderFailure. now destruct (isImagePrompt ci).
    + exists TypeError. now rewrite I, image_branch_cases, P.
    + exists NoImageData. rewrite I, image_branch_cases, P.
      apply scan_parts_nil_iff in N. now rewrite N.
Qed.

(** Every message the [try] block hands over is a MODEL message that
    carries references or an image, never both. *)
Lemma try_block_shape (ci : jsstring) (o : Outcome) (now : N) (m : Message) :
  try_block ci o now = Ok m ->
  author m = MODEL /\ (references m = None \/ imageUrl m = None).
Proof.
  unfold try_block. destruct (isImagePrompt ci).
  - rewrite image_branch_cases. destruct o as [|r]; [discriminate|].
    destruct (response_parts r) as [ps|]; [|discriminate].
    destruct (truthy (scan_parts ps)); [|discriminate].
    intros [= <-]. cbn. auto.
  - destruct o as [|r]; [discriminate|].
    rewrite text_branch_returns. intros [= <-]. cbn. auto.
Qed.

(** The id suffixes keep a normal message apart from the fallback. *)
Lemma try_block_not_fallback (ci : jsstring) (o : Outcome) (now : N)
      (m : Message) :
  try_block ci o now = Ok m -> m <> errorMessage now.
Proof.
  intros H E. assert (I : id m = toString now ++ lit "-model").
  { unfold try_block in H. destruct (isImagePrompt ci).
    - rewrite image_branch_cases in H. destruct o as [|r]; [discriminate|].
      destruct (response_parts r) as [ps|]; [|discriminate].
      destruct (truthy (scan_parts ps)); [|discriminate].
      now injection H as <-.
    - destruct o as [|r]; [discriminate|].
      rewrite text_branch_returns in H. now injection H as <-. }
  rewrite E in I. cbn [errorMessage id] in I.
  apply app_inv_head in I. discriminate.
Qed.

(** ** The guard *)

Lemma start_rejected (st : State) (now : N) :
  blank (input st) = true \/ isLoading st = true ->
  sendMessage_start st now = (st, None).
Proof.
  unfold sendMessage_start. rewrite truthy_trim, negb_involutive.
  intros [-> | ->]; [reflexivity|]. now rewrite orb_true_r.
Qed.

Lemma start_accepted (st : State) (now : N) :
  accepted st ->
  sendMessage_start st now =
  ({| messages := messages st ++ [userMessage (input st) now];
      input := [];
      isLoading := true |},
   Some {| currentInput := input st; request := request_of (input st) |}).
Proof.
  intros [B L]. unfold sendMessage_start.
  now rewrite truthy_trim, negb_involutive, B, L.
Qed.

Lemma resume_appends (c : Call) (o : Outcome) (now : N) (st : State) :
  exists m,
    sendMessage_resume c o now st =
      {| messages := messages st ++ [m]; input := input st;
         isLoading := false |}
    /\ author m = MODEL
    /\ (references m = None \/ imageUrl m = None)
    /\ (try_block (currentInput c) o now = Ok m
        \/ (exists e, try_block (currentInput c) o now = Thrown e)
           /\ m = errorMessage now).
Proof.
  unfold sendMessage_resume.
  destruct (try_block (currentInput c) o now) as [m|e] eqn:T.
  - exists m. destruct (try_block_shape _ _ _ _ T) as [A S]. auto.
  - exists (errorMessage now). repeat split; auto. right. split; eauto.
Qed.

(** ** Reachable states *)

Lemma run_snoc (sys : System) (evs : list Event) (ev : Event) :
  run sys (evs ++ [ev]) = step (run sys evs) ev.
Proof. unfold run. now rewrite fold_left_app. Qed.

Lemma reachable_boot : reachable boot.
Proof. now exists []. Qed.

Lemma reachable_step (sys : System) (ev : Event) :
  reachable sys -> reachable (step sys ev).
Proof. intros [evs ->]. exists (evs ++ [ev]). now rewrite run_snoc. Qed.

Lemma reachable_induction (P : System -> Prop) :
  P boot ->
  (forall sys ev, reachable sys -> P sys -> P (step sys ev)) ->
  forall sys, reachable sys -> P sys.
Proof.
  intros H0 HS sys [evs ->].
  induction evs as [|ev evs IH] using rev_ind; [exact H0|].
  rewrite run_snoc. apply HS; [now exists evs|exact IH].
Qed.

(** At most one call is suspended, and exactly when the flag is set. *)
Lemma single_inflight (sys : System) :
  reachable sys ->
  (isLoading (ui sys) = false /\ inflight sys = []) \/
  (isLoading (ui sys) = true /\ exists c, inflight sys = [c]).
Proof.
  revert sys. apply reachable_induction.
  - left. now split.
  - intros sys ev _ IH. destruct ev as [s|now|k o now]; cbn [step].
    + exact IH.
    + destruct IH as [[L I]|[L [c I]]].
      * destruct (blank (input (ui sys))) eqn:B.
        -- rewrite start_rejected by now left. left. now split.
        -- rewrite start_accepted by now split. right. cbn.
           split; [reflexivity|]. rewrite I. cbn [app]. eauto.
      * rewrite start_rejected by now right. right. cbn. eauto.
    + destruct IH as [[L I]|[L [c I]]]; rewrite I.
      * destruct k; cbn [nth_error]; left; now split.
      * destruct k as [|k]; cbn [nth_error];
          [|destruct k; cbn [nth_error]; right; eauto].
        left. cbn [ui inflight].
        destruct (resume_appends c o now (ui sys)) as [m [-> _]].
        now split.
Qed.

(** No message of a reachable conversation carries both references
    and an image. *)
Lemma conversation_shape (sys : System) :
  reachable sys ->
  forall m, In m (messages (ui sys)) ->
    references m = None \/ imageUrl m = None.
Proof.
  revert sys.
  apply (reachable_induction
           (fun sys => forall m, In m (messages (ui sys)) ->
                         references m = None \/ imageUrl m = None)).
  - intros m [<-|[]]. now left.
  - intros sys ev _ IH. destruct ev as [s|now|k o now]; cbn [step].
    + exact IH.
    + destruct (blank (input (ui sys))) eqn:B;
        [rewrite start_rejected by (now left); exact IH|].
      destruct (isLoading (ui sys)) eqn:L;
        [rewrite start_rejected by (now right); exact IH|].
      rewrite start_accepted by now split. cbn [ui messages].
      intros m Hm. apply in_app_or in Hm.
      destruct Hm as [Hm|[<-|[]]]; [now apply IH|now left].
    + destruct (nth_error (inflight sys) k) as [c|]; [|exact IH].
      cbn [ui].
      destruct (resume_appends c o now (ui sys)) as [m [-> [_ [S _]]]].
      cbn [messages]. intros m' Hm. apply in_app_or in Hm.
      destruct Hm as [Hm|[<-|[]]]; [now apply IH|exact S].
Qed.

Lemma keep_reference_iff (ref : Reference) :
  keep_reference ref = true <-> complete ref.
Proof.
  unfold keep_reference, complete. split.
  - intros H. apply andb_true_iff in H. destruct H as [U T].
    destruct (uri ref) as [u|], (title ref) as [t|]; try discriminate.
    exists u, t. repeat split; intros ->; discriminate.
  - intros [u [t [-> [-> [Hu Ht]]]]]. destruct u, t; simpl; congruence.
Qed.

(** ** Scenarios *)

Example scenario_image_prompt :
  request_of (lit "/imagine a minimalist logo for a coffee shop") =
    ImageRequest (lit "a minimalist logo for a coffee shop")
  /\ try_block (lit "/imagine a minimalist logo for a coffee shop")
               (Returns (Sample.with_parts [Sample.inline "iVBORw0KGgo="]))
               2000 =
     Ok {| author := MODEL;
           text := Some (lit "Here is my take on: " ++ [dquote]
                         ++ lit "a minimalist logo for a coffee shop"
                         ++ [dquote]);
           id := lit "2000-model";
           references := None;
           imageUrl := Some (lit "data:image/png;base64,iVBORw0KGgo=") |}.
Proof. split; reflexivity. Qed.

Example scenario_text_question :
  messages (ui (run boot [Edit (lit "Which fonts pair well?"); Submit 1000;
                          Settle 0 (Returns Sample.grounded) 2000])) =
  [greeting;
   userMessage (lit "Which fonts pair well?") 1000;
   {| author := MODEL;
      text := Some (lit "Try a humanist sans.");
      id := lit "2000-model";
      references :=
        Some [{| uri := Some (lit "https://a.example");
                 title := Some (lit "A") |};
              {| uri := Some (lit "https://e.example");
                 title := Some (lit "E") |}];
      imageUrl := None |}].
Proof. reflexivity. Qed.

Example scenario_provider_throws :
  ui (run boot [Edit (lit "Which fonts pair well?"); Submit 1000;
                Settle 0 Throws 2000]) =
  {| messages := [greeting;
                  userMessage (lit "Which fonts pair well?") 1000;
                  errorMessage 2000];
     input := [];
     isLoading := false |}.
Proof. reflexivity. Qed.

Example scenario_empty_input :
  step boot (Submit 1000) = boot.
Proof. reflexivity. Qed.

Example scenario_case_sensitive :
  isImagePrompt (lit "/Imagine a logo") = false
  /\ isImagePrompt (lit "/imaginea logo") = false
  /\ isImagePrompt (lit "  /imagine a logo") = true.
Proof. repeat split. Qed.

(** * The claims *)

(** C1.  While a request is in flight ([isLoading] is true), a submit is
    a no-op whatever the input holds: the conversation is unchanged, no
    further request is dispatched, no further call is suspended, and the
    flag stays set. *)
Theorem submit_while_awaiting_is_noop (sys : System) (now : N) :
  isLoading (ui sys) = true ->
  step sys (Submit now) = sys
  /\ messages (ui (step sys (Submit now))) = messages (ui sys)
  /\ dispatched (step sys (Submit now)) = dispatched sys
  /\ inflight (step sys (Submit now)) = inflight sys
  /\ isLoading (ui (step sys (Submit now))) = true.
Proof.
  intros L. assert (E : step sys (Submit now) = sys).
  { cbn [step]. rewrite start_rejected by (now right). now destruct sys. }
  rewrite E. auto.
Qed.

Lemma submit_while_awaiting_witness :
  isLoading (ui Sample.awaiting) = true
  /\ step Sample.awaiting (Submit 2000) = Sample.awaiting.
Proof.
  split; [reflexivity|].
  apply (submit_while_awaiting_is_noop Sample.awaiting 2000). reflexivity.
Defined.

(** C2.  For an accepted submit, the flag is back to false when the call
    has settled, on every path; and when the provider call throws, or the
    input is an image prompt and the response yields no inline image
    data, the conversation grows by the USER message and exactly one
    MODEL message with the fixed fallback text, without references and
    without image. *)
Theorem failure_appends_one_fallback
        (st : State) (now later : N) (o : Outcome) :
  accepted st ->
  isLoading (sendMessage st now o later) = false
  /\ ((o = Throws \/
       (isImagePrompt (input st) = true /\
        exists r, o = Returns r /\
          forall ps, response_parts r = Ok ps -> no_inline_data ps)) ->
      exists m,
        messages (sendMessage st now o later) =
          messages st ++ [userMessage (input st) now; m]
        /\ author m = MODEL
        /\ text m =
             Some (lit "Sorry, I encountered an error. Please try again.")
        /\ references m = None
        /\ imageUrl m = None).
Proof.
  intros A. unfold sendMessage. rewrite (start_accepted st now A). split.
  - match goal with |- context [sendMessage_resume ?c o later ?s] =>
      destruct (resume_appends c o later s) as [m [-> _]] end.
    reflexivity.
  - intros F. exists (errorMessage later).
    assert (T : exists e, try_block (input st) o later = Thrown e).
    { apply try_block_throws_iff. destruct F as [->|[I [r [-> H]]]];
        [now left|right].
      split; [exact I|]. exists r. split; [reflexivity|].
      destruct (response_parts r) as [ps|e] eqn:P.
      - right. exists ps. split; [reflexivity|]. now apply H.
      - left. f_equal. now apply (response_parts_error r). }
    destruct T as [e T]. unfold sendMessage_resume.
    cbn [currentInput]. rewrite T. cbn [appendMessage setIsLoading messages].
    rewrite <- app_assoc. repeat split; reflexivity.
Qed.

Lemma failure_appends_one_fallback_witness :
  accepted (ui (Sample.typed "/imagine a logo"))
  /\ exists m,
       messages (sendMessage (ui (Sample.typed "/imagine a logo")) 1000
                             (Returns Sample.no_image) 2000) =
         [greeting; userMessage (lit "/imagine a logo") 1000; m]
       /\ author m = MODEL
       /\ text m =
            Some (lit "Sorry, I encountered an error. Please try again.")
       /\ references m = None
       /\ imageUrl m = None.
Proof.
  assert (A : accepted (ui (Sample.typed "/imagine a logo")))
    by (split; reflexivity).
  split; [exact A|].
  apply (failure_appends_one_fallback _ 1000 2000 (Returns Sample.no_image) A).
  right. split; [reflexivity|]. exists Sample.no_image.
  split; [reflexivity|].
  intros ps [= <-] p [<-|[]]. reflexivity.
Defined.

(** C3.  When the trimmed input begins with [/imagine ] (compared code
    unit by code unit, so case-sensitively), the request is an image
    request whose prompt is the trimmed input without that prefix; every
    MODEL message the call then produces on success has the caption
    [Here is my take on: "<prompt>"], and a response with inline image
    data does produce one. *)
Theorem imagine_prefix_selects_image_mode (ci : jsstring) :
  startsWith (trim ci) (lit "/imagine ") = true ->
  exists prompt,
    trim ci = lit "/imagine " ++ prompt
    /\ request_of ci = ImageRequest prompt
    /\ (forall o now m,
          try_block ci o now = Ok m ->
          text m =
            Some (lit "Here is my take on: " ++ [dquote] ++ prompt ++ [dquote]))
    /\ (forall r ps now,
          response_parts r = Ok ps -> ~ no_inline_data ps ->
          exists m, try_block ci (Returns r) now = Ok m).
Proof.
  intros H. exists (image_prompt ci).
  assert (I : isImagePrompt ci = true) by exact H.
  split; [exact (startsWith_split _ _ H)|].
  split; [unfold request_of; now rewrite I|]. split.
  - intros o now m. unfold try_block. rewrite I, image_branch_cases.
    destruct o as [|r]; [discriminate|].
    destruct (response_parts r) as [ps|]; [|discriminate].
    destruct (truthy (scan_parts ps)); [|discriminate].
    now intros [= <-].
  - intros r ps now P N. unfold try_block. rewrite I, image_branch_cases, P.
    destruct (truthy (scan_parts ps)) eqn:T; [eauto|].
    apply truthy_false_nil, scan_parts_nil_iff in T. contradiction.
Qed.

Lemma imagine_prefix_witness :
  exists prompt,
    trim (lit " /imagine a minimalist logo for a coffee shop ") =
      lit "/imagine " ++ prompt
    /\ request_of (lit " /imagine a minimalist logo for a coffee shop ") =
         ImageRequest prompt.
Proof.
  destruct (imagine_prefix_selects_image_mode
              (lit " /imagine a minimalist logo for a coffee shop ")
              eq_refl) as [prompt [T [R _]]].
  exists prompt. split; [exact T|exact R].
Defined.

(** C4, as the code has it.  When the trimmed input does not begin with
    [/imagine ], the request is a text request whose contents are the
    persona instruction followed by the input as submitted, untrimmed;
    that is the trimmed input exactly when trimming changes nothing. *)
Theorem text_prompt_is_raw_input (ci : jsstring) :
  startsWith (trim ci) (lit "/imagine ") = false ->
  request_of ci = TextRequest (persona ++ ci)
  /\ (request_of ci = TextRequest (persona ++ trim ci) <-> trim ci = ci).
Proof.
  intros H. assert (I : isImagePrompt ci = false) by exact H.
  assert (R : request_of ci = TextRequest (persona ++ ci))
    by (unfold request_of; now rewrite I).
  split; [exact R|]. rewrite R. split.
  - intros E. assert (E' : persona ++ ci = persona ++ trim ci) by congruence.
    apply app_inv_head in E'. now symmetry.
  - now intros ->.
Qed.

Lemma text_prompt_is_raw_input_witness :
  request_of (lit "  hi  ") = TextRequest (persona ++ lit "  hi  ").
Proof.
  apply (text_prompt_is_raw_input (lit "  hi  ")). reflexivity.
Defined.

(** C4 as stated fails: for the input ["  hi  "] the mode is TEXT, but
    the prompt after the persona instruction is the padded input, not
    the trimmed one. *)
Lemma text_prompt_not_trimmed :
  startsWith (trim (lit "  hi  ")) (lit "/imagine ") = false
  /\ trim (lit "  hi  ") = lit "hi"
  /\ request_of (lit "  hi  ") = TextRequest (persona ++ lit "  hi  ")
  /\ request_of (lit "  hi  ") <> TextRequest (persona ++ trim (lit "  hi  ")).
Proof.
  repeat split; try reflexivity.
  intros E.
  change (TextRequest (persona ++ lit "  hi  ") =
          TextRequest (persona ++ lit "hi")) in E.
  assert (E' : persona ++ lit "  hi  " = persona ++ lit "hi") by congruence.
  apply app_inv_head in E'. discriminate.
Qed.

(** C5, as the code has it.  For an image prompt and a response whose
    parts include one with inline data, the message's [imageUrl] is
    [data:image/png;base64,] followed by the payload of the last such
    part: the loop assigns on every match and does not stop. *)
Theorem image_url_uses_last_inline_part
        (ci : jsstring) (r : Response) (pre post : list Part)
        (b : Blob) (now : N) :
  isImagePrompt ci = true ->
  response_parts r = Ok (pre ++ {| inlineData := Some b |} :: post) ->
  no_inline_data post ->
  exists m,
    try_block ci (Returns r) now = Ok m
    /\ imageUrl m = Some (lit "data:image/png;base64," ++ data b).
Proof.
  intros I P N. unfold try_block.
  rewrite I, image_branch_cases, P, (scan_parts_last pre post b N).
  eexists. split; reflexivity.
Qed.

Lemma image_url_uses_last_inline_part_witness :
  exists m,
    try_block (lit "/imagine a logo") (Returns Sample.two_images) 2000 = Ok m
    /\ imageUrl m = Some (lit "data:image/png;base64," ++ lit "BBB").
Proof.
  apply (image_url_uses_last_inline_part
           (lit "/imagine a logo") Sample.two_images
           [Sample.inline "AAA"; {| inlineData := None |}] []
           {| data := lit "BBB" |} 2000);
    [reflexivity|reflexivity|intros p []].
Defined.

(** C5 as stated fails: in [Sample.two_images] the first part with
    inline data carries [AAA], and the message's [imageUrl] carries
    [BBB]. *)
Lemma first_inline_part_not_selected :
  response_parts Sample.two_images =
    Ok [Sample.inline "AAA"; {| inlineData := None |}; Sample.inline "BBB"]
  /\ spec_first_inline
       [Sample.inline "AAA"; {| inlineData := None |}; Sample.inline "BBB"] =
     Some {| data := lit "AAA" |}
  /\ exists m,
       try_block (lit "/imagine a logo") (Returns Sample.two_images) 2000 =
         Ok m
       /\ imageUrl m = Some (lit "data:image/png;base64," ++ lit "BBB")
       /\ imageUrl m <> Some (lit "data:image/png;base64," ++ lit "AAA").
Proof.
  split; [reflexivity|]. split; [reflexivity|].
  eexists. split; [reflexivity|]. split; [reflexivity|].
  intros E. vm_compute in E. discriminate E.
Qed.

(** C6, as the code has it.  When a call settles, the fallback message
    is what gets appended exactly when the provider call threw, or the
    input is an image prompt and the response either lacks
    [candidates[0].content.parts] or has no part with inline data.  A
    text-mode response that arrived never fails: its [text], present or
    not, is stored in a normal MODEL message. *)
Theorem fallback_exactly_on_throw_or_missing_image
        (c : Call) (o : Outcome) (now : N) (st : State) :
  (messages (sendMessage_resume c o now st) = messages st ++ [errorMessage now]
   <->
   (o = Throws \/
    (isImagePrompt (currentInput c) = true /\
     exists r, o = Returns r /\
       (response_parts r = Thrown TypeError \/
        exists ps, response_parts r = Ok ps /\ no_inline_data ps))))
  /\ (forall r,
        isImagePrompt (currentInput c) = false -> o = Returns r ->
        messages (sendMessage_resume c o now st) =
          messages st ++
          [{| author := MODEL;
              text := response_text r;
              id := toString now ++ lit "-model";
              references := references_of (response_chunks r);
              imageUrl := None |}]).
Proof.
  split.
  - rewrite <- try_block_throws_iff with (now := now).
    destruct (resume_appends c o now st) as [m [-> [_ [_ H]]]].
    cbn [messages]. split.
    + intros E. apply app_inv_head in E. injection E as ->.
      destruct H as [H|[H _]]; [|exact H].
      now apply try_block_not_fallback in H.
    + intros [e T]. destruct H as [H|[_ ->]]; [congruence|reflexivity].
  - intros r I ->. unfold sendMessage_resume, try_block.
    now rewrite I, text_branch_returns.
Qed.

Lemma fallback_exactly_witness :
  messages (sendMessage_resume
              {| currentInput := lit "hello";
                 request := request_of (lit "hello") |}
              (Returns Sample.bare) 2000 initial) =
  [greeting;
   {| author := MODEL; text := None; id := lit "2000-model";
      references := None; imageUrl := None |}].
Proof.
  apply (proj2 (fallback_exactly_on_throw_or_missing_image
                  {| currentInput := lit "hello";
                     request := request_of (lit "hello") |}
                  (Returns Sample.bare) 2000 initial) Sample.bare);
    reflexivity.
Defined.

(** C6 as stated fails: the text-mode response [Sample.bare] has no
    text, and the call appends a normal MODEL message with an undefined
    text, not the fallback. *)
Lemma missing_text_is_not_a_failure :
  isImagePrompt (lit "hello") = false
  /\ response_text Sample.bare = None
  /\ try_block (lit "hello") (Returns Sample.bare) 2000 =
       Ok {| author := MODEL; text := None; id := lit "2000-model";
             references := None; imageUrl := None |}
  /\ messages (sendMessage_resume
                 {| currentInput := lit "hello";
                    request := request_of (lit "hello") |}
                 (Returns Sample.bare) 2000 initial)
     <> messages initial ++ [errorMessage 2000].
Proof.
  repeat split; try reflexivity.
  intros E. vm_compute in E. discriminate E.
Qed.

(** C7.  In text mode a response that arrived yields a MODEL message
    whose [references] are: absent when the response has no grounding
    chunks (no candidates, no first candidate, no grounding metadata, or
    no chunk list); otherwise present, holding in order the
    [{uri, title}] images of the chunks with exactly those dropped that
    miss [uri] or [title] or have one empty, so a list of invalid chunks
    gives a present, empty sequence. *)
Theorem references_follow_grounding_chunks
        (ci : jsstring) (r : Response) (now : N) :
  isImagePrompt ci = false ->
  exists m,
    try_block ci (Returns r) now = Ok m
    /\ (response_chunks r = None -> references m = None)
    /\ ((candidates r = None \/ candidates r = Some [] \/
         exists c rest,
           candidates r = Some (c :: rest) /\ groundingMetadata c = None) ->
        references m = None)
    /\ (forall cs,
          response_chunks r = Some cs ->
          exists refs,
            references m = Some refs
            /\ refs = filter keep_reference (map to_reference cs)
            /\ (forall ref,
                  In ref refs <->
                  (exists chunk,
                     In chunk cs
                     /\ ref = {| uri := web chunk ?. web_uri;
                                 title := web chunk ?. web_title |})
                  /\ complete ref)
            /\ ((forall chunk, In chunk cs -> ~ complete (to_reference chunk))
                -> refs = [])).
Proof.
  intros I. unfold try_block. rewrite I, text_branch_returns.
  eexists. split; [reflexivity|]. cbn [references].
  assert (A : response_chunks r = None ->
              references_of (response_chunks r) = None) by now intros ->.
  split; [exact A|]. split.
  - intros H. apply A. unfold response_chunks.
    destruct H as [->|[->|[c [rest [-> G]]]]]; try reflexivity.
    cbn [chain nth_error]. now rewrite G.
  - intros cs ->. eexists. split; [reflexivity|]. split; [reflexivity|].
    split.
    + intros ref. rewrite filter_In, in_map_iff, keep_reference_iff.
      split.
      * intros [[chunk [<- H]] K]. split; [|exact K]. now exists chunk.
      * intros [[chunk [H ->]] K]. split; [|exact K]. now exists chunk.
    + intros H. induction cs as [|chunk cs IH]; [reflexivity|].
      cbn [map filter].
      destruct (keep_reference (to_reference chunk)) eqn:K.
      * apply keep_reference_iff in K. now apply H in K; [|left].
      * apply IH. intros ch Hc. apply H. now right.
Qed.

Lemma references_follow_witness :
  (exists m,
     try_block (lit "Which fonts pair well?") (Returns Sample.grounded) 2000 =
       Ok m
     /\ references m =
          Some [{| uri := Some (lit "https://a.example");
                   title := Some (lit "A") |};
                {| uri := Some (lit "https://e.example");
                   title := Some (lit "E") |}])
  /\ (exists m,
        try_block (lit "Which fonts pair well?")
                  (Returns Sample.all_invalid) 2000 = Ok m
        /\ references m = Some [])
  /\ (exists m,
        try_block (lit "Which fonts pair well?") (Returns Sample.bare) 2000 =
          Ok m
        /\ references m = None).
Proof.
  split; [|split].
  - destruct (references_follow_grounding_chunks
                (lit "Which fonts pair well?") Sample.grounded 2000 eq_refl)
      as [m [T [_ [_ H]]]].
    exists m. split; [exact T|].
    destruct (H _ eq_refl) as [refs [-> [-> _]]]. reflexivity.
  - destruct (references_follow_grounding_chunks
                (lit "Which fonts pair well?") Sample.all_invalid 2000 eq_refl)
      as [m [T [_ [_ H]]]].
    exists m. split; [exact T|].
    destruct (H _ eq_refl) as [refs [-> [-> _]]]. reflexivity.
  - destruct (references_follow_grounding_chunks
                (lit "Which fonts pair well?") Sample.bare 2000 eq_refl)
      as [m [T [H _]]].
    exists m. split; [exact T|]. apply H. reflexivity.
Defined.

(** C8.  No message of any reachable conversation, the greeting, a USER
    message, a text or image answer or the fallback, carries both
    [references] and [imageUrl]; and a message produced for an image
    prompt has no [references] and an [imageUrl] that starts with
    [data:image/png;base64,]. *)
Theorem never_both_references_and_image :
  (forall sys,
     reachable sys ->
     forall m, In m (messages (ui sys)) ->
       ~ (references m <> None /\ imageUrl m <> None))
  /\ (forall ci o now m,
        isImagePrompt ci = true ->
        try_block ci o now = Ok m ->
        references m = None
        /\ exists payload,
             imageUrl m = Some (lit "data:image/png;base64," ++ payload)).
Proof.
  split.
  - intros sys R m Hm [Hr Hi].
    destruct (conversation_shape sys R m Hm); contradiction.
  - intros ci o now m I. unfold try_block. rewrite I, image_branch_cases.
    destruct o as [|r]; [discriminate|].
    destruct (response_parts r) as [ps|]; [|discriminate].
    destruct (truthy (scan_parts ps)) eqn:T; [|discriminate].
    intros [= <-]. cbn [references imageUrl]. split; [reflexivity|].
    destruct (scan_parts_shape ps) as [E|[payload E]].
    + rewrite E in T. discriminate.
    + exists payload. now rewrite E.
Qed.

Lemma never_both_witness :
  reachable Sample.after_image
  /\ ~ (references (errorMessage 2000) <> None
        /\ imageUrl (errorMessage 2000) <> None)
  /\ exists m,
       nth_error (messages (ui Sample.after_image)) 2 = Some m
       /\ ~ (references m <> None /\ imageUrl m <> None)
       /\ references m = None
       /\ exists payload,
            imageUrl m = Some (lit "data:image/png;base64," ++ payload).
Proof.
  assert (R : reachable Sample.after_image) by (eexists; reflexivity).
  split; [exact R|]. split.
  - apply (proj1 never_both_references_and_image
             (step Sample.awaiting (Settle 0 Throws 2000))).
    + apply reachable_step. eexists. reflexivity.
    + right. right. left. reflexivity.
  - eexists. split; [reflexivity|]. split.
    + apply (proj1 never_both_references_and_image Sample.after_image R).
      right. right. left. reflexivity.
    + apply (proj2 never_both_references_and_image
               (lit "/imagine a logo") (Returns Sample.two_images) 2000%N);
        reflexivity.
Defined.

(** C9, as the code has it.  A submit whose input is empty or white
    space only is rejected at the guard: the whole system state is
    unchanged, so no USER message, no request, and an idle component
    stays idle.  An input that trims to the bare token [/imagine] is not
    rejected: while idle, its USER message is appended and a text
    request carrying the input is dispatched. *)
Theorem blank_rejected_bare_command_accepted (sys : System) (now : N) :
  (blank (input (ui sys)) = true -> step sys (Submit now) = sys)
  /\ (isLoading (ui sys) = false ->
      trim (input (ui sys)) = lit "/imagine" ->
      step sys (Submit now) =
        {| ui := {| messages :=
                      messages (ui sys) ++ [userMessage (input (ui sys)) now];
                    input := [];
                    isLoading := true |};
           inflight :=
             inflight sys ++
             [{| currentInput := input (ui sys);
                 request := TextRequest (persona ++ input (ui sys)) |}];
           dispatched :=
             dispatched sys ++ [TextRequest (persona ++ input (ui sys))] |}).
Proof.
  split.
  - intros B. cbn [step]. rewrite start_rejected by (now left).
    now destruct sys.
  - intros L T. cbn [step].
    assert (B : blank (input (ui sys)) = false).
    { destruct (blank (input (ui sys))) eqn:B; [|reflexivity].
      apply trim_nil_iff in B. rewrite B in T. discriminate. }
    rewrite start_accepted by (now split). cbn [request].
    unfold request_of, isImagePrompt. now rewrite T.
Qed.

Lemma blank_rejected_witness :
  step (Sample.typed "   ") (Submit 1000) = Sample.typed "   "
  /\ dispatched (step (Sample.typed "/imagine ") (Submit 1000)) =
       [TextRequest (persona ++ lit "/imagine ")].
Proof.
  split.
  - apply (proj1 (blank_rejected_bare_command_accepted
                    (Sample.typed "   ") 1000)).
    reflexivity.
  - rewrite (proj2 (blank_rejected_bare_command_accepted
                      (Sample.typed "/imagine ") 1000) eq_refl eq_refl).
    reflexivity.
Defined.

(** C9 as stated fails: the bare token [/imagine], submitted while idle,
    passes the guard; the USER message is appended, a request is
    dispatched and the flag is set. *)
Lemma bare_command_not_rejected :
  isLoading (ui (Sample.typed "/imagine")) = false
  /\ messages (ui (step (Sample.typed "/imagine") (Submit 1000))) =
       [greeting; userMessage (lit "/imagine") 1000]
  /\ dispatched (step (Sample.typed "/imagine") (Submit 1000)) =
       [TextRequest (persona ++ lit "/imagine")]
  /\ isLoading (ui (step (Sample.typed "/imagine") (Submit 1000))) = true
  /\ step (Sample.typed "/imagine") (Submit 1000) <> Sample.typed "/imagine".
Proof.
  repeat split; try reflexivity.
  intros E. apply (f_equal (fun s => isLoading (ui s))) in E.
  vm_compute in E. discriminate E.
Qed.

(** C10.  An accepted submit appends a USER message whose text is the
    input exactly as it stands in the input buffer, neither trimmed nor
    stripped of a command prefix, and the message stays at that position
    whatever the outcome of the call. *)
Theorem user_message_keeps_raw_input (st : State) (now : N) :
  accepted st ->
  exists m,
    messages (fst (sendMessage_start st now)) = messages st ++ [m]
    /\ author m = USER
    /\ text m = Some (input st)
    /\ forall o later,
         nth_error (messages (sendMessage st now o later))
                   (List.length (messages st)) = Some m.
Proof.
  intros A. exists (userMessage (input st) now).
  unfold sendMessage. rewrite (start_accepted st now A). cbn [fst messages].
  repeat split. intros o later.
  match goal with |- context [sendMessage_resume ?c o later ?s] =>
    destruct (resume_appends c o later s) as [m [-> _]] end.
  cbn [messages]. rewrite <- app_assoc.
  rewrite nth_error_app2 by lia. now rewrite Nat.sub_diag.
Qed.

Lemma user_message_keeps_raw_input_witness :
  exists m,
    messages (fst (sendMessage_start (ui (Sample.typed "  /imagine a logo "))
                                     1000)) = [greeting; m]
    /\ text m = Some (lit "  /imagine a logo ").
Proof.
  destruct (user_message_keeps_raw_input
              (ui (Sample.typed "  /imagine a logo ")) 1000
              (conj eq_refl eq_refl)) as [m [M [_ [T _]]]].
  exists m. split; [exact M|exact T].
Defined.

(** * Further properties of the code *)

(** ** What one event does to the conversation *)

Lemma try_block_id (ci : jsstring) (o : Outcome) (now : N) (m : Message) :
  try_block ci o now = Ok m -> id m = toString now ++ lit "-model".
Proof.
  unfold try_block. destruct (isImagePrompt ci).
  - rewrite image_branch_cases. destruct o as [|r]; [discriminate|].
    destruct (response_parts r) as [ps|]; [|discriminate].
    destruct (truthy (scan_parts ps)); [|discriminate].
    now intros [= <-].
  - destruct o as [|r]; [discriminate|].
    rewrite text_branch_returns. now intros [= <-].
Qed.

(** An event leaves the conversation alone or appends one message,
    whose id is the event's clock reading plus a suffix. *)
Lemma step_appends (sys : System) (ev : Event) :
  messages (ui (step sys ev)) = messages (ui sys)
  \/ exists m t sfx,
       messages (ui (step sys ev)) = messages (ui sys) ++ [m]
       /\ stamp ev = [t]
       /\ id m = toString t ++ sfx
       /\ id_suffix sfx.
Proof.
  destruct ev as [s|now|k o now]; cbn [step].
  - now left.
  - destruct (blank (input (ui sys))) eqn:B;
      [rewrite start_rejected by (now left); now left|].
    destruct (isLoading (ui sys)) eqn:L;
      [rewrite start_rejected by (now right); now left|].
    rewrite start_accepted by (now split). right.
    exists (userMessage (input (ui sys)) now), now, [].
    cbn [ui messages stamp userMessage id]. rewrite app_nil_r.
    repeat split. now left.
  - destruct (nth_error (inflight sys) k) as [c|]; [|now left].
    right. cbn [ui stamp].
    destruct (resume_appends c o now (ui sys)) as [m [-> [_ [_ H]]]].
    cbn [messages]. destruct H as [H|[_ ->]].
    + exists m, now, (lit "-model"). repeat split.
      * now apply try_block_id in H.
      * right. now left.
    + exists (errorMessage now), now, (lit "-error"). repeat split.
      right. now right.
Qed.




Lemma nth_error_singleton {A} (x y : A) (k : nat) :
  nth_error [x] k = Some y -> k = 0 /\ x = y.
Proof.
  destruct k as [|k]; cbn.
  - now intros [= ->].
  - now destruct k.
Qed.

Lemma step_submit_rejected (sys : System) (now : N) :
  blank (input (ui sys)) = true \/ isLoading (ui sys) = true ->
  step sys (Submit now) = sys.
Proof.
  intros H. cbn [step]. rewrite start_rejected by exact H. now destruct sys.
Qed.

Lemma step_submit_accepted (sys : System) (now : N) :
  accepted (ui sys) ->
  step sys (Submit now) =
  {| ui := {| messages :=
                messages (ui sys) ++ [userMessage (input (ui sys)) now];
              input := [];
              isLoading := true |};
     inflight :=
       inflight sys ++ [{| currentInput := input (ui sys);
                           request := request_of (input (ui sys)) |}];
     dispatched := dispatched sys ++ [request_of (input (ui sys))] |}.
Proof. intros A. cbn [step]. now rewrite start_accepted. Qed.

(** The three ways a submit can go. *)
Lemma step_submit_cases (sys : System) (now : N) :
  (step sys (Submit now) = sys
   /\ (blank (input (ui sys)) = true \/ isLoading (ui sys) = true))
  \/ (accepted (ui sys)
      /\ step sys (Submit now) =
         {| ui := {| messages :=
                       messages (ui sys) ++ [userMessage (input (ui sys)) now];
                     input := [];
                     isLoading := true |};
            inflight :=
              inflight sys ++ [{| currentInput := input (ui sys);
                                  request := request_of (input (ui sys)) |}];
            dispatched := dispatched sys ++ [request_of (input (ui sys))] |}).
Proof.
  destruct (blank (input (ui sys))) eqn:B;
    [left; split; [apply step_submit_rejected|]; now left|].
  destruct (isLoading (ui sys)) eqn:L;
    [left; split; [apply step_submit_rejected|]; now right|].
  right. split; [now split|]. apply step_submit_accepted. now split.
Qed.

(** A settle event finds no call, or finishes one. *)
Lemma step_settle_cases (sys : System) (k : nat) (o : Outcome) (now : N) :
  step sys (Settle k o now) = sys
  \/ exists c m,
       nth_error (inflight sys) k = Some c
       /\ step sys (Settle k o now) =
            {| ui := {| messages := messages (ui sys) ++ [m];
                        input := input (ui sys);
                        isLoading := false |};
               inflight := remove_nth k (inflight sys);
               dispatched := dispatched sys |}
       /\ author m = MODEL
       /\ (try_block (currentInput c) o now = Ok m \/ m = errorMessage now).
Proof.
  cbn [step]. destruct (nth_error (inflight sys) k) as [c|]; [|now left].
  right. destruct (resume_appends c o now (ui sys)) as [m [-> [M [_ H]]]].
  exists c, m. repeat split; [exact M|]. destruct H as [H|[_ H]]; auto.
Qed.

(** ** The orchestrator as a whole *)

(** X1.  In every reachable state at most one call of [sendMessage] is
    suspended at its [await], and [isLoading] is set exactly when one
    is. *)
Theorem one_call_in_flight (sys : System) :
  reachable sys ->
  List.length (inflight sys) = (if isLoading (ui sys) then 1 else 0)
  /\ (isLoading (ui sys) = true <-> inflight sys <> []).
Proof.
  intros R. destruct (single_inflight sys R) as [[-> ->]|[-> [c ->]]].
  - repeat split; [discriminate|now intros []].
  - repeat split. discriminate.
Qed.

Lemma one_call_in_flight_witness :
  List.length (inflight Sample.awaiting) = 1
  /\ List.length (inflight (run boot Sample.session)) = 0.
Proof.
  split.
  - apply (one_call_in_flight Sample.awaiting). eexists. reflexivity.
  - apply (one_call_in_flight (run boot Sample.session)).
    eexists. reflexivity.
Defined.

(** X2.  The conversation is append-only: whatever events occur, from
    any state, the messages present before are still there, in place,
    and at most one message per event has been added behind them. *)
Theorem conversation_only_grows (sys : System) (evs : list Event) :
  exists more,
    messages (ui (run sys evs)) = messages (ui sys) ++ more
    /\ List.length more <= List.length evs.
Proof.
  induction evs as [|ev evs [more [E L]]] using rev_ind.
  - exists []. now rewrite app_nil_r.
  - rewrite run_snoc, length_app. cbn [List.length].
    destruct (step_appends (run sys evs) ev) as [->|[m [_ [_ [-> _]]]]].
    + exists more. split; [exact E|lia].
    + exists (more ++ [m]). rewrite E, app_assoc, length_app.
      cbn [List.length]. split; [reflexivity|lia].
Qed.





(** X5.  Every USER message of a reachable conversation holds a text
    that is not blank, and neither references nor an image. *)
Theorem user_messages_hold_nonblank_text (sys : System) :
  reachable sys ->
  forall m, In m (messages (ui sys)) -> author m = USER ->
    (exists s, text m = Some s /\ blank s = false)
    /\ references m = None
    /\ imageUrl m = None.
Proof.
  revert sys.
  apply (reachable_induction
           (fun sys => forall m, In m (messages (ui sys)) -> author m = USER ->
              (exists s, text m = Some s /\ blank s = false)
              /\ references m = None /\ imageUrl m = None)).
  - intros m [<-|[]]. discriminate.
  - intros sys ev _ IH. destruct ev as [s|now|k o now].
    + exact IH.
    + destruct (step_submit_cases sys now) as [[-> _]|[[B _] ->]];
        [exact IH|].
      cbn [ui messages]. intros m Hm. apply in_app_or in Hm.
      destruct Hm as [Hm|[<-|[]]]; [now apply IH|].
      intros _. cbn. eauto.
    + destruct (step_settle_cases sys k o now)
        as [->|[c [m [_ [-> [M _]]]]]]; [exact IH|].
      cbn [ui messages]. intros m' Hm. apply in_app_or in Hm.
      destruct Hm as [Hm|[<-|[]]]; [now apply IH|].
      rewrite M. discriminate.
Qed.

Lemma user_messages_hold_nonblank_text_witness :
  (exists s, text (userMessage (lit " /imagine a logo ") 3000) = Some s
             /\ blank s = false)
  /\ references (userMessage (lit " /imagine a logo ") 3000) = None
  /\ imageUrl (userMessage (lit " /imagine a logo ") 3000) = None.
Proof.
  apply (user_messages_hold_nonblank_text (run boot Sample.session)).
  - eexists. reflexivity.
  - do 5 right. left. reflexivity.
  - reflexivity.
Defined.

Lemma run_cons (sys : System) (ev : Event) (evs : list Event) :
  run sys (ev :: evs) = run (step sys ev) evs.
Proof. reflexivity. Qed.

(** Without an edit, a blank input stays blank and nothing is sent. *)
Lemma blank_input_sends_nothing (evs : list Event) (sys : System) :
  forallb (fun ev => negb (is_edit ev)) evs = true ->
  blank (input (ui sys)) = true ->
  dispatched (run sys evs) = dispatched sys.
Proof.
  revert sys. induction evs as [|ev evs IH]; intros sys E B; [reflexivity|].
  cbn [forallb] in E. apply andb_true_iff in E. destruct E as [E1 E2].
  rewrite run_cons. destruct ev as [s|now|k o now]; [discriminate| |].
  - rewrite step_submit_rejected by (now left). now apply IH.
  - destruct (step_settle_cases sys k o now)
      as [->|[c [m [_ [-> _]]]]]; [now apply IH|].
    now rewrite IH.
Qed.

(** X6.  However often submit fires and whatever settles in between, as
    long as the input is not edited at most one request goes out: an
    accepted submit empties the input, and an empty input is rejected. *)
Theorem one_request_per_typed_input (sys : System) (evs : list Event) :
  forallb (fun ev => negb (is_edit ev)) evs = true ->
  exists sent,
    dispatched (run sys evs) = dispatched sys ++ sent
    /\ List.length sent <= 1.
Proof.
  revert sys. induction evs as [|ev evs IH]; intros sys E.
  - exists []. rewrite app_nil_r. split; [reflexivity|cbn; lia].
  - pose proof E as E'. cbn [forallb] in E'.
    apply andb_true_iff in E'. destruct E' as [E1 E2]. rewrite run_cons.
    destruct ev as [s|now|k o now]; [discriminate| |].
    + destruct (step_submit_cases sys now) as [[-> _]|[_ ->]];
        [now apply IH|].
      rewrite blank_input_sends_nothing by (exact E2 || reflexivity).
      cbn [dispatched]. eexists. split; [reflexivity|]. cbn. lia.
    + destruct (step_settle_cases sys k o now)
        as [->|[c [m [_ [-> _]]]]]; [now apply IH|].
      match goal with |- context [run ?s evs] =>
        destruct (IH s E2) as [sent [-> L]] end.
      now exists sent.
Qed.

Lemma one_request_per_typed_input_witness :
  exists sent,
    dispatched (run (Sample.typed "Which fonts pair well?")
                    [Submit 1000; Submit 1001; Settle 0 Throws 1500;
                     Submit 2000; Submit 2001]) = [] ++ sent
    /\ List.length sent <= 1.
Proof.
  apply (one_request_per_typed_input (Sample.typed "Which fonts pair well?")).
  reflexivity.
Defined.

(** ** The image prompt *)

Lemma trimStart_head (s r : jsstring) (c : N) :
  trimStart s = c :: r -> isWhiteSpace c = false.
Proof.
  induction s as [|a s IH]; cbn [trimStart]; [discriminate|].
  destruct (isWhiteSpace a) eqn:W; [exact IH|]. now intros [= <- _].
Qed.

(** What [trim] returns has no blank tail. *)
Lemma trim_no_blank_tail (s a b : jsstring) :
  trim s = a ++ b -> b <> [] -> blank b = false.
Proof.
  unfold trim, trimEnd. intros H Hb.
  apply (f_equal (@rev N)) in H. rewrite rev_involutive, rev_app_distr in H.
  destruct (rev b) as [|c r] eqn:R.
  - apply (f_equal (@rev N)) in R. rewrite rev_involutive in R. contradiction.
  - apply trimStart_head in H. rewrite <- blank_rev, R. cbn [blank forallb].
    now rewrite H.
Qed.

(** X7.  An image request never carries a blank prompt: when the
    trimmed input begins with [/imagine ], what follows the prefix
    contains a character that is not white space, and does not end in
    white space. *)
Theorem image_prompt_never_blank (ci : jsstring) :
  isImagePrompt ci = true ->
  blank (image_prompt ci) = false
  /\ forall a c, image_prompt ci = a ++ [c] -> isWhiteSpace c = false.
Proof.
  intros I.
  assert (T : trim ci = imagine ++ image_prompt ci)
    by exact (startsWith_split _ _ I).
  split.
  - change imagine with (lit "/imagine" ++ [32%N]) in T.
    rewrite <- app_assoc in T.
    apply trim_no_blank_tail in T; [|discriminate].
    cbn [app blank forallb] in T. exact T.
  - intros a c E. rewrite E, app_assoc in T.
    apply trim_no_blank_tail in T; [|discriminate].
    cbn [blank forallb] in T. now rewrite andb_true_r in T.
Qed.

Lemma image_prompt_never_blank_witness :
  blank (image_prompt (lit " /imagine   a logo ")) = false.
Proof.
  apply (image_prompt_never_blank (lit " /imagine   a logo ")). reflexivity.
Defined.

(** ** Message ids *)

Lemma lit_inj (a b : string) : lit a = lit b -> a = b.
Proof.
  unfold lit. intros H. apply (f_equal (map ascii_of_N)) in H.
  rewrite !map_map in H.
  rewrite (map_ext _ (fun a => a) ascii_N_embedding) in H.
  rewrite (map_ext _ (fun a => a) ascii_N_embedding) in H.
  rewrite !map_id in H. apply (f_equal string_of_list_ascii) in H.
  now rewrite !string_of_list_ascii_of_string in H.
Qed.

Lemma to_uint_nonnil (n : N) : N.to_uint n <> Decimal.Nil.
Proof.
  destruct n as [|p]; [discriminate|]. apply Unsigned.to_uint_nonnil.
Qed.

(** [toString] tells numbers apart. *)
Lemma toString_inj (n m : N) : toString n = toString m -> n = m.
Proof.
  unfold toString. intros H. apply lit_inj in H.
  apply (f_equal NilZero.uint_of_string) in H.
  rewrite !NilZero.usu in H by apply to_uint_nonnil.
  injection H as H. now apply DecimalN.Unsigned.to_uint_inj.
Qed.

Lemma lit_digits (d : Decimal.uint) :
  Forall (fun c => isDigit c = true) (lit (NilEmpty.string_of_uint d)).
Proof.
  unfold lit.
  induction d; cbn [NilEmpty.string_of_uint list_ascii_of_string map];
    constructor; (reflexivity || assumption).
Qed.

(** [toString] writes digits only. *)
Lemma toString_digits (n : N) :
  Forall (fun c => isDigit c = true) (toString n).
Proof.
  unfold toString, NilZero.string_of_uint.
  destruct (N.to_uint n) eqn:E; try apply lit_digits.
  now apply to_uint_nonnil in E.
Qed.

(** A run of digits followed by a suffix that does not start with a
    digit splits in one way only. *)
Lemma digits_suffix_inj (d d' s s' : jsstring) :
  Forall (fun c => isDigit c = true) d ->
  Forall (fun c => isDigit c = true) d' ->
  nondigit_head s -> nondigit_head s' ->
  d ++ s = d' ++ s' -> d = d' /\ s = s'.
Proof.
  intros D. revert d'. induction D as [|c d C D IH]; intros d' D' S S' E.
  - destruct D' as [|c' d' C' D']; [now split|].
    cbn [app] in E. subst s. cbn in S. congruence.
  - destruct D' as [|c' d' C' D'].
    + cbn [app] in E. subst s'. cbn in S'. congruence.
    + cbn [app] in E. injection E as E0 E. subst c'.
      destruct (IH d' D' S S' E) as [-> ->]. now split.
Qed.

Lemma id_suffix_nondigit (sfx : jsstring) :
  id_suffix sfx -> nondigit_head sfx.
Proof. intros [-> | [-> | ->]]; reflexivity. Qed.

(** Two ids built by [sendMessage] are equal only at the same clock
    reading. *)
Lemma stamped_id_inj (t t' : N) (sfx sfx' : jsstring) :
  id_suffix sfx -> id_suffix sfx' ->
  toString t ++ sfx = toString t' ++ sfx' -> t = t' /\ sfx = sfx'.
Proof.
  intros S S' E.
  destruct (digits_suffix_inj (toString t) (toString t') sfx sfx'
              (toString_digits t) (toString_digits t')
              (id_suffix_nondigit sfx S) (id_suffix_nondigit sfx' S') E)
    as [E1 E2].
  split; [now apply toString_inj|exact E2].
Qed.

Lemma stamped_id_not_greeting (t : N) (sfx : jsstring) :
  id_suffix sfx -> toString t ++ sfx <> id greeting.
Proof.
  intros S E.
  destruct (digits_suffix_inj (toString t) [] sfx (id greeting)
              (toString_digits t) (Forall_nil _)
              (id_suffix_nondigit sfx S) eq_refl E) as [_ E2].
  destruct S as [-> | [-> | ->]]; discriminate E2.
Qed.

Lemma stamps_snoc (evs : list Event) (ev : Event) :
  stamps (evs ++ [ev]) = stamps evs ++ stamp ev.
Proof. unfold stamps. rewrite flat_map_app. cbn. now rewrite app_nil_r. Qed.

(** Where the ids of a conversation come from. *)
Lemma ids_are_stamped (evs : list Event) :
  forall m, In m (messages (ui (run boot evs))) ->
    id m = id greeting
    \/ exists t sfx,
         In t (stamps evs) /\ id m = toString t ++ sfx /\ id_suffix sfx.
Proof.
  induction evs as [|ev evs IH] using rev_ind.
  - intros m [<-|[]]. now left.
  - rewrite run_snoc, stamps_snoc. intros m Hm.
    assert (W : forall m, In m (messages (ui (run boot evs))) ->
              id m = id greeting
              \/ exists t sfx,
                   In t (stamps evs ++ stamp ev)
                   /\ id m = toString t ++ sfx /\ id_suffix sfx).
    { intros m' Hm'. destruct (IH m' Hm') as [G|[t [sfx [T R]]]];
        [now left|right].
      exists t, sfx. split; [apply in_or_app; now left|exact R]. }
    destruct (step_appends (run boot evs) ev)
      as [E|[m' [t [sfx [E [T [I S]]]]]]]; rewrite E in Hm.
    + now apply W.
    + apply in_app_or in Hm. destruct Hm as [Hm|[<-|[]]]; [now apply W|].
      right. exists t, sfx. rewrite T.
      split; [apply in_or_app; right; now left|now split].
Qed.

Lemma StronglySorted_snoc (l : list N) (t : N) :
  StronglySorted N.lt (l ++ [t]) ->
  StronglySorted N.lt l /\ forall x, In x l -> (x < t)%N.
Proof.
  induction l as [|a l IH]; cbn [app]; intros H.
  - split; [constructor|intros x []].
  - apply StronglySorted_inv in H. destruct H as [H F].
    destruct (IH H) as [S L]. rewrite Forall_app in F. destruct F as [F1 F2].
    split; [now constructor|].
    intros x [<-|Hx]; [now inversion F2|now apply L].
Qed.

(** X8.  When every clock reading of a run is larger than the one
    before, all messages of the conversation have different ids, so the
    React keys of the rows are unique. *)
Theorem ids_unique_when_clock_advances (evs : list Event) :
  clock_advances evs ->
  NoDup (map id (messages (ui (run boot evs))))
  /\ NoDup (map row_key (rows (render (ui (run boot evs))))).
Proof.
  intros C.
  assert (U : NoDup (map id (messages (ui (run boot evs))))).
  { unfold clock_advances in C.
    induction evs as [|ev evs IH] using rev_ind.
    - repeat constructor. intros [].
    - rewrite run_snoc. rewrite stamps_snoc in C.
      destruct (step_appends (run boot evs) ev)
        as [E|[m [t [sfx [E [T [I S]]]]]]]; rewrite E.
      + apply IH. destruct (stamp ev) as [|t l] eqn:T;
          [now rewrite app_nil_r in C|].
        destruct ev; cbn in T; try discriminate;
          injection T as T1 T2; subst t l; now apply StronglySorted_snoc in C.
      + rewrite T in C. apply StronglySorted_snoc in C.
        destruct C as [C L]. rewrite map_app. cbn [map].
        apply NoDup_app; [now apply IH|repeat constructor; intros []|].
        intros i Hi [<-|[]]. apply in_map_iff in Hi.
        destruct Hi as [m' [Em Hm']].
        destruct (ids_are_stamped evs m' Hm') as [G|[t' [sfx' [T' [I' S']]]]].
        * rewrite Em, I in G. now apply stamped_id_not_greeting in G.
        * rewrite I, I' in Em.
          apply stamped_id_inj in Em; [|assumption|assumption].
          destruct Em as [-> _]. apply L in T'. lia. }
  split; [exact U|].
  unfold render. cbn [rows]. rewrite map_map.
  now rewrite (map_ext _ id (fun m => eq_refl)).
Qed.

Lemma ids_unique_witness :
  NoDup (map id (messages (ui (run boot Sample.session)))).
Proof.
  apply (ids_unique_when_clock_advances Sample.session).
  unfold clock_advances. cbn.
  repeat (constructor; [|repeat (constructor; [reflexivity|]); constructor]).
  constructor.
Defined.

(** ** The view *)

(** X9.  The send button is disabled exactly when [sendMessage] would
    return at its guard, and enabled exactly when a click would append
    the USER message and dispatch a request. *)
Theorem send_button_follows_guard (st : State) (now : N) :
  (button_disabled (render st) = true <->
   sendMessage_start st now = (st, None))
  /\ (button_disabled (render st) = false <->
      exists c,
        sendMessage_start st now =
          ({| messages := messages st ++ [userMessage (input st) now];
              input := [];
              isLoading := true |}, Some c)).
Proof.
  unfold render. cbn [button_disabled].
  rewrite truthy_trim, negb_involutive.
  destruct (isLoading st) eqn:L; cbn [orb].
  - rewrite start_rejected by (now right). split; split; try easy.
    intros [c H]. discriminate H.
  - destruct (blank (input st)) eqn:B.
    + rewrite start_rejected by (now left). split; split; try easy.
      intros [c H]. discriminate H.
    + rewrite start_accepted by (now split). split; split; try easy.
      intros _. eauto.
Qed.

Lemma render_links_spec (refs : list Reference) (l : Link) :
  In l (render_links refs) ->
  exists ref, In ref refs /\ href l = uri ref /\ label l = title ref.
Proof.
  unfold render_links. rewrite in_map_iff. intros [[i ref] [<- H]].
  apply in_combine_r in H. now exists ref.
Qed.

Lemma render_links_keys (refs : list Reference) :
  map link_key (render_links refs) = seq 0 (List.length refs).
Proof.
  unfold render_links. rewrite map_map. cbn [link_key].
  change (map (fun ir : nat * Reference => fst ir)
              (combine (seq 0 (List.length refs)) refs))
    with (map fst (combine (seq 0 (List.length refs)) refs)).
  generalize 0. induction refs as [|ref refs IH]; intros n; [reflexivity|].
  cbn [List.length seq combine map fst]. now rewrite IH.
Qed.

Lemma render_links_length (refs : list Reference) :
  List.length (render_links refs) = List.length refs.
Proof.
  rewrite <- (length_map link_key), render_links_keys. apply length_seq.
Qed.

(** The references of a message the [try] block hands over are all
    complete. *)
Lemma try_block_references (ci : jsstring) (o : Outcome) (now : N)
      (m : Message) (refs : list Reference) :
  try_block ci o now = Ok m -> references m = Some refs ->
  forall ref, In ref refs -> complete ref.
Proof.
  unfold try_block. destruct (isImagePrompt ci).
  - rewrite image_branch_cases. destruct o as [|r]; [discriminate|].
    destruct (response_parts r) as [ps|]; [|discriminate].
    destruct (truthy (scan_parts ps)); [|discriminate].
    intros [= <-]. discriminate.
  - destruct o as [|r]; [discriminate|].
    rewrite text_branch_returns. intros [= <-]. cbn [references].
    destruct (response_chunks r) as [cs|]; [|discriminate].
    intros [= <-] ref H. apply filter_In in H.
    now apply keep_reference_iff.
Qed.

(** The image of a message the [try] block hands over is a data URI,
    and such a message has no references. *)
Lemma try_block_image (ci : jsstring) (o : Outcome) (now : N)
      (m : Message) (u : jsstring) :
  try_block ci o now = Ok m -> imageUrl m = Some u ->
  (exists payload, u = data_uri ++ payload) /\ references m = None.
Proof.
  unfold try_block. destruct (isImagePrompt ci).
  - rewrite image_branch_cases. destruct o as [|r]; [discriminate|].
    destruct (response_parts r) as [ps|]; [|discriminate].
    destruct (truthy (scan_parts ps)) eqn:T; [|discriminate].
    intros [= <-]. cbn [imageUrl references]. intros [= <-].
    split; [|reflexivity].
    destruct (scan_parts_shape ps) as [E|H]; [|exact H].
    rewrite E in T. discriminate.
  - destruct o as [|r]; [discriminate|].
    rewrite text_branch_returns. intros [= <-]. discriminate.
Qed.

(** X10.  For a text answer the References block is rendered exactly
    when some grounding chunk has both a non-empty uri and a non-empty
    title; a response without grounding chunks and one whose chunks are
    all incomplete are rendered alike, without the block.  No image is
    rendered for a text answer. *)
Theorem references_block_needs_complete_chunk
        (ci : jsstring) (r : Response) (now : N) :
  isImagePrompt ci = false ->
  exists m,
    try_block ci (Returns r) now = Ok m
    /\ image (render_message m) = None
    /\ (links (render_message m) <> None <->
        exists cs chunk,
          response_chunks r = Some cs /\ In chunk cs
          /\ complete (to_reference chunk)).
Proof.
  intros I. unfold try_block. rewrite I, text_branch_returns.
  eexists. split; [reflexivity|]. split; [reflexivity|].
  unfold render_message. cbn [links references].
  destruct (response_chunks r) as [cs|]; cbn [references_of option_map].
  - destruct (filter keep_reference (map to_reference cs)) as [|ref refs] eqn:F.
    + cbn. split; [congruence|]. intros [cs' [chunk [[= <-] [H K]]]].
      assert (X : In (to_reference chunk)
                     (filter keep_reference (map to_reference cs))).
      { apply filter_In. split; [now apply in_map|].
        now apply keep_reference_iff. }
      rewrite F in X. destruct X.
    + cbn [List.length Nat.ltb Nat.leb]. split; [|discriminate]. intros _.
      assert (X : In ref (filter keep_reference (map to_reference cs)))
        by (rewrite F; now left).
      apply filter_In in X. destruct X as [X K].
      apply in_map_iff in X. destruct X as [chunk [<- H]].
      exists cs, chunk. repeat split; [exact H|].
      now apply keep_reference_iff.
  - split; [congruence|]. intros [cs [chunk [H _]]]. discriminate.
Qed.

Lemma references_block_witness :
  (exists m,
     try_block (lit "Which fonts pair well?") (Returns Sample.all_invalid)
               2000 = Ok m
     /\ image (render_message m) = None)
  /\ (exists m,
        try_block (lit "Which fonts pair well?") (Returns Sample.grounded)
                  2000 = Ok m
        /\ links (render_message m) <> None).
Proof.
  split.
  - destruct (references_block_needs_complete_chunk
                (lit "Which fonts pair well?") Sample.all_invalid 2000 eq_refl)
      as [m [T [I _]]].
    exists m. split; [exact T|exact I].
  - destruct (references_block_needs_complete_chunk
                (lit "Which fonts pair well?") Sample.grounded 2000 eq_refl)
      as [m [T [_ L]]].
    exists m. split; [exact T|]. apply L. eexists. eexists.
    split; [reflexivity|]. split; [left; reflexivity|].
    exists (lit "https://a.example"), (lit "A").
    repeat split; discriminate.
Defined.

(** All references of a reachable conversation are complete. *)
Lemma references_complete (sys : System) :
  reachable sys ->
  forall m refs ref,
    In m (messages (ui sys)) -> references m = Some refs -> In ref refs ->
    complete ref.
Proof.
  revert sys.
  apply (reachable_induction
           (fun sys => forall m refs ref,
              In m (messages (ui sys)) -> references m = Some refs ->
              In ref refs -> complete ref)).
  - intros m refs ref [<-|[]]. discriminate.
  - intros sys ev _ IH. destruct ev as [s|now|k o now].
    + exact IH.
    + destruct (step_submit_cases sys now) as [[-> _]|[_ ->]]; [exact IH|].
      cbn [ui messages]. intros m refs ref Hm. apply in_app_or in Hm.
      destruct Hm as [Hm|[<-|[]]]; [now apply IH|discriminate].
    + destruct (step_settle_cases sys k o now)
        as [->|[c [m [_ [-> [_ H]]]]]]; [exact IH|].
      cbn [ui messages]. intros m' refs ref Hm. apply in_app_or in Hm.
      destruct Hm as [Hm|[<-|[]]]; [now apply IH|].
      destruct H as [H| ->]; [|discriminate].
      intros Hr Hi. exact (try_block_references _ _ _ _ _ H Hr ref Hi).
Qed.

(** X11.  Whenever a References block is rendered for a message of a
    reachable conversation it has at least one link, every link has a
    non-empty href and a non-empty title, and the link keys are 0, 1,
    2, ... in order. *)
Theorem rendered_links_are_complete (sys : System) :
  reachable sys ->
  forall row ls,
    In row (rows (render (ui sys))) -> links row = Some ls ->
    ls <> []
    /\ map link_key ls = seq 0 (List.length ls)
    /\ forall l, In l ls ->
         exists u t, href l = Some u /\ label l = Some t
                     /\ u <> [] /\ t <> [].
Proof.
  intros R row ls Hr. unfold render in Hr. cbn [rows] in Hr.
  apply in_map_iff in Hr. destruct Hr as [m [<- Hm]].
  unfold render_message. cbn [links].
  destruct (references m) as [refs|] eqn:E; [|discriminate].
  destruct refs as [|ref refs]; [discriminate|].
  cbn [List.length Nat.ltb Nat.leb]. intros [= <-]. split; [discriminate|].
  split.
  - now rewrite render_links_keys, render_links_length.
  - intros l Hl. apply render_links_spec in Hl.
    destruct Hl as [ref' [Hin [-> ->]]].
    exact (references_complete sys R m (ref :: refs) ref' Hm E Hin).
Qed.

Lemma rendered_links_witness :
  exists ls,
    option_map links (nth_error (rows (render (ui (run boot Sample.session)))) 2)
      = Some (Some ls)
    /\ ls <> []
    /\ map link_key ls = seq 0 (List.length ls).
Proof.
  eexists. split; [reflexivity|].
  destruct (rendered_links_are_complete (run boot Sample.session)
              (ex_intro _ Sample.session eq_refl)
              (render_message
                 {| author := MODEL;
                    text := Some (lit "Try a humanist sans.");
                    id := lit "1500-model";
                    references :=
                      Some [{| uri := Some (lit "https://a.example");
                               title := Some (lit "A") |};
                            {| uri := Some (lit "https://e.example");
                               title := Some (lit "E") |}];
                    imageUrl := None |})
              _ (or_intror (or_intror (or_introl eq_refl))) eq_refl)
    as [N [K _]].
  split; [exact N|exact K].
Defined.

(** X12.  In a reachable conversation a message that carries an image
    is a MODEL message without references, its [imageUrl] starts with
    [data:image/png;base64,], and the view renders that image. *)
Theorem images_are_rendered_data_uris (sys : System) :
  reachable sys ->
  forall m u,
    In m (messages (ui sys)) -> imageUrl m = Some u ->
    author m = MODEL
    /\ references m = None
    /\ (exists payload, u = lit "data:image/png;base64," ++ payload)
    /\ image (render_message m) = Some u
    /\ links (render_message m) = None.
Proof.
  intros R m u Hm E.
  assert (P : author m = MODEL /\ references m = None
              /\ exists payload, u = data_uri ++ payload).
  { revert sys R m u Hm E.
    apply (reachable_induction
             (fun sys => forall m u,
                In m (messages (ui sys)) -> imageUrl m = Some u ->
                author m = MODEL /\ references m = None
                /\ exists payload, u = data_uri ++ payload)).
    - intros m u [<-|[]]. discriminate.
    - intros sys ev _ IH. destruct ev as [s|now|k o now].
      + exact IH.
      + destruct (step_submit_cases sys now) as [[-> _]|[_ ->]]; [exact IH|].
        cbn [ui messages]. intros m u Hm. apply in_app_or in Hm.
        destruct Hm as [Hm|[<-|[]]]; [now apply IH|discriminate].
      + destruct (step_settle_cases sys k o now)
          as [->|[c [m [_ [-> [M H]]]]]]; [exact IH|].
        cbn [ui messages]. intros m' u Hm. apply in_app_or in Hm.
        destruct Hm as [Hm|[<-|[]]]; [now apply IH|].
        destruct H as [H| ->]; [|discriminate].
        intros E. destruct (try_block_image _ _ _ _ _ H E) as [X Y]. auto. }
  destruct P as [A [N [payload ->]]]. repeat split; auto.
  - now exists payload.
  - unfold render_message. cbn [image]. now rewrite E.
  - unfold render_message. cbn [links]. now rewrite N.
Qed.

Lemma images_are_rendered_witness :
  image (render_message
           {| author := MODEL;
              text := Some (caption (lit "a logo"));
              id := lit "3500-model";
              references := None;
              imageUrl := Some (lit "data:image/png;base64,BBB") |}) =
  Some (lit "data:image/png;base64,BBB").
Proof.
  apply (images_are_rendered_data_uris (run boot Sample.session)
           (ex_intro _ Sample.session eq_refl)
           {| author := MODEL;
              text := Some (caption (lit "a logo"));
              id := lit "3500-model";
              references := None;
              imageUrl := Some (lit "data:image/png;base64,BBB") |}
           (lit "data:image/png;base64,BBB")).
  - do 6 right. left. reflexivity.
  - reflexivity.
Defined.

(** The clock hypothesis of X8 is needed: two submits that read the
    same millisecond give two USER messages the same id. *)
Example ids_collide_on_a_stopped_clock :
  map id (messages (ui (run boot [Edit (lit "a"); Submit 5;
                                  Settle 0 Throws 5;
                                  Edit (lit "b"); Submit 5]))) =
  [lit "initial-message"; lit "5"; lit "5-error"; lit "5"].
Proof. reflexivity. Qed.

(** ** White space around the input *)

Lemma trimStart_blank_app (w s : jsstring) :
  blank w = true -> trimStart (w ++ s) = trimStart s.
Proof.
  induction w as [|c w IH]; cbn [app blank forallb trimStart]; [reflexivity|].
  intros H. apply andb_true_iff in H. destruct H as [-> H]. now apply IH.
Qed.

Lemma trimStart_app_nonblank (s t : jsstring) :
  blank s = false -> trimStart (s ++ t) = trimStart s ++ t.
Proof.
  induction s as [|c s IH]; cbn [app blank forallb trimStart]; [discriminate|].
  destruct (isWhiteSpace c); [exact IH|reflexivity].
Qed.

(** [trim] does not see blank padding. *)
Lemma trim_padding (w s w' : jsstring) :
  blank w = true -> blank w' = true -> trim (w ++ s ++ w') = trim s.
Proof.
  intros W W'. destruct (blank s) eqn:B.
  - assert (E : blank (w ++ s ++ w') = true)
      by now rewrite !blank_app, W, B, W'.
    apply trim_nil_iff in E. apply trim_nil_iff in B. congruence.
  - unfold trim, trimEnd.
    rewrite (trimStart_blank_app w _ W), (trimStart_app_nonblank s w' B).
    rewrite rev_app_distr, trimStart_blank_app; [reflexivity|].
    now rewrite blank_rev.
Qed.

(** X13.  White space around the input does not change how it is
    classified, and does not change an image request; a text request
    does change, since it carries the input as typed. *)
Theorem padding_is_invisible_to_image_requests (w ci w' : jsstring) :
  blank w = true -> blank w' = true ->
  isImagePrompt (w ++ ci ++ w') = isImagePrompt ci
  /\ (isImagePrompt ci = true ->
      request_of (w ++ ci ++ w') = request_of ci)
  /\ (isImagePrompt ci = false ->
      request_of (w ++ ci ++ w') = TextRequest (persona ++ w ++ ci ++ w')).
Proof.
  intros W W'. pose proof (trim_padding w ci w' W W') as T.
  assert (I : isImagePrompt (w ++ ci ++ w') = isImagePrompt ci)
    by (unfold isImagePrompt; now rewrite T).
  split; [exact I|].
  unfold request_of, image_prompt. rewrite I, T.
  split; intros ->; reflexivity.
Qed.

Lemma padding_is_invisible_witness :
  request_of (lit "  " ++ lit "/imagine a logo" ++ lit " ") =
  request_of (lit "/imagine a logo").
Proof.
  apply (padding_is_invisible_to_image_requests
           (lit "  ") (lit "/imagine a logo") (lit " "));
    reflexivity.
Defined.
